(** * Request-scoped state of the code-navigation service

    A shallow embedding of [internal/codeintel/codenav/request_state.go]:
    the upload cache [UploadsDataLoader] (an insertion-ordered slice next to
    an identifier-keyed map) and the [RequestState] that owns it together
    with the translation cache, the commit cache, the authorization handle
    and the moniker-search bound.

    Conventions.
    - Go's [int] is modelled by [Z]; the code only compares and copies such
      values, it never does arithmetic on them, so no wrap-around occurs.
    - A Go slice is a [list]; [len] is [Z.of_nat (length _)].
    - A Go [map[int]shared.Dump] is a [gmap Z shared.Dump].
    - A pointer or interface value that may be [nil] is an [option].
    - A call that may stop with a run-time panic returns a [run]. *)

From stdpp Require Import gmap strings list fin_maps.

Local Open Scope Z_scope.

(** ** Values shared by both representations *)

(** Go's [time.Time]; the code copies timestamps and never inspects them. *)
Definition Time : Type := Z.

(** Go's [error] interface, as built by [errors.New]. *)
Inductive error : Type :=
| errorString (msg : string).

(** Outcome of a call: a returned value, or a run-time panic. *)
Inductive panic : Type :=
| NilDereference
| IndexOutOfRange.

Inductive run (A : Type) : Type :=
| Returns (a : A)
| Panics (p : panic).

Arguments Returns {A} a.
Arguments Panics {A} p.

(** [len(s)] of a slice. *)
Definition len {A : Type} (s : list A) : Z := Z.of_nat (length s).

(** The index expression [s[i]]: Go panics outside [0, len(s)). *)
Definition slice_at {A : Type} (s : list A) (i : Z) : run A :=
  if (i <? 0) || (len s <=? i) then Panics IndexOutOfRange
  else match s !! Z.to_nat i with
       | Some a => Returns a
       | None => Panics IndexOutOfRange
       end.

(** ** The storage representation, [dbstore.Dump] *)

Module dbstore.

(** Modelled from the spec: the declaration of [dbstore.Dump] is not part
    of the file; the fields are the ones [AddUpload] reads, which are the
    attributes of an upload listed in the data model (identifier, commit,
    root, visibility flag, lifecycle timestamps, processing state, retry
    counters, repository id and name, indexer name and version, optional
    associated index).  Optional attributes are pointers, hence options. *)
Record Dump : Type := mkDump {
  ID : Z;
  Commit : string;
  Root : string;
  VisibleAtTip : bool;
  UploadedAt : Time;
  State : string;
  FailureMessage : option string;
  StartedAt : option Time;
  FinishedAt : option Time;
  ProcessAfter : option Time;
  NumResets : Z;
  NumFailures : Z;
  RepositoryID : Z;
  RepositoryName : string;
  Indexer : string;
  IndexerVersion : string;
  AssociatedIndexID : option Z
}.

(** The zero value [dbstore.Dump{}]. *)
Definition zero : Dump :=
  mkDump 0 EmptyString EmptyString false 0 EmptyString None None None None 0 0 0
    EmptyString EmptyString EmptyString None.

End dbstore.

(** ** The cached representation, [shared.Dump] *)

Module shared.

(** Modelled from the spec: the declaration of [shared.Dump] is not part
    of the file; the fields are the ones the composite literal in
    [AddUpload] sets. *)
Record Dump : Type := mkDump {
  ID : Z;
  Commit : string;
  Root : string;
  VisibleAtTip : bool;
  UploadedAt : Time;
  State : string;
  FailureMessage : option string;
  StartedAt : option Time;
  FinishedAt : option Time;
  ProcessAfter : option Time;
  NumResets : Z;
  NumFailures : Z;
  RepositoryID : Z;
  RepositoryName : string;
  Indexer : string;
  IndexerVersion : string;
  AssociatedIndexID : option Z
}.

(** The zero value [shared.Dump{}]. *)
Definition zero : Dump :=
  mkDump 0 EmptyString EmptyString false 0 EmptyString None None None None 0 0 0
    EmptyString EmptyString EmptyString None.

End shared.

(** ** The upload cache *)

(** [type UploadsDataLoader struct]: the two views.  The third field,
    [cacheMutex], carries no data; the functions below give what each method
    computes when it runs alone, and module [Interleaving] further down gives
    the same methods as sequences of atomic steps around the mutex. *)
Record UploadsDataLoader : Type := mkLoader {
  uploads : list shared.Dump;
  uploadsByID : gmap Z shared.Dump
}.

Definition NewUploadsDataLoader : UploadsDataLoader :=
  {| uploads := []; uploadsByID := ∅ |}.

(** [upload, ok := l.uploadsByID[id]]: a missing key gives the zero value
    and [false]. *)
Definition GetUploadFromCacheMap (l : UploadsDataLoader) (id : Z)
  : shared.Dump * bool :=
  match uploadsByID l !! id with
  | Some upload => (upload, true)
  | None => (shared.zero, false)
  end.

(** One iteration of the loop of [SetUploadInCacheMap]:
    [l.uploadsByID[uploads[i].ID] = uploads[i]]. *)
Definition storeByID (m : gmap Z shared.Dump) (u : shared.Dump)
  : gmap Z shared.Dump :=
  <[shared.ID u := u]> m.

Definition SetUploadInCacheMap (l : UploadsDataLoader)
    (us : list shared.Dump) : UploadsDataLoader :=
  {| uploads := uploads l;
     uploadsByID := foldl storeByID (uploadsByID l) us |}.

(** The composite literal [shared.Dump{ID: d.ID, ...}] of [AddUpload]. *)
Definition sharedDump (d : dbstore.Dump) : shared.Dump :=
  {| shared.ID := dbstore.ID d;
     shared.Commit := dbstore.Commit d;
     shared.Root := dbstore.Root d;
     shared.VisibleAtTip := dbstore.VisibleAtTip d;
     shared.UploadedAt := dbstore.UploadedAt d;
     shared.State := dbstore.State d;
     shared.FailureMessage := dbstore.FailureMessage d;
     shared.StartedAt := dbstore.StartedAt d;
     shared.FinishedAt := dbstore.FinishedAt d;
     shared.ProcessAfter := dbstore.ProcessAfter d;
     shared.NumResets := dbstore.NumResets d;
     shared.NumFailures := dbstore.NumFailures d;
     shared.RepositoryID := dbstore.RepositoryID d;
     shared.RepositoryName := dbstore.RepositoryName d;
     shared.Indexer := dbstore.Indexer d;
     shared.IndexerVersion := dbstore.IndexerVersion d;
     shared.AssociatedIndexID := dbstore.AssociatedIndexID d |}.

Definition AddUpload (l : UploadsDataLoader) (d : dbstore.Dump)
  : UploadsDataLoader :=
  let dump := sharedDump d in
  {| uploads := uploads l ++ [dump];
     uploadsByID := <[shared.ID dump := dump]> (uploadsByID l) |}.

(** ** Vocabulary of the specification *)

(** The inverse of the translation. *)
Definition dbstoreDump (u : shared.Dump) : dbstore.Dump :=
  {| dbstore.ID := shared.ID u;
     dbstore.Commit := shared.Commit u;
     dbstore.Root := shared.Root u;
     dbstore.VisibleAtTip := shared.VisibleAtTip u;
     dbstore.UploadedAt := shared.UploadedAt u;
     dbstore.State := shared.State u;
     dbstore.FailureMessage := shared.FailureMessage u;
     dbstore.StartedAt := shared.StartedAt u;
     dbstore.FinishedAt := shared.FinishedAt u;
     dbstore.ProcessAfter := shared.ProcessAfter u;
     dbstore.NumResets := shared.NumResets u;
     dbstore.NumFailures := shared.NumFailures u;
     dbstore.RepositoryID := shared.RepositoryID u;
     dbstore.RepositoryName := shared.RepositoryName u;
     dbstore.Indexer := shared.Indexer u;
     dbstore.IndexerVersion := shared.IndexerVersion u;
     dbstore.AssociatedIndexID := shared.AssociatedIndexID u |}.

(** The most recent element of [us] that carries identifier [id]. *)
Fixpoint latest (id : Z) (us : list shared.Dump) : option shared.Dump :=
  match us with
  | [] => None
  | u :: rest =>
      match latest id rest with
      | Some v => Some v
      | None => if decide (shared.ID u = id) then Some u else None
      end
  end.

(** The invariant of the data model: the map holds, for each identifier of
    the ordered sequence and for no other, the most recent upload of the
    sequence with that identifier. *)
Definition cache_invariant (l : UploadsDataLoader) : Prop :=
  ∀ id : Z, uploadsByID l !! id = latest id (uploads l).

(** The part of it that speaks of the identifiers of the sequence only:
    each of them has the most recently inserted upload as its entry. *)
Definition latest_inserted_wins (l : UploadsDataLoader) : Prop :=
  ∀ (id : Z) (u : shared.Dump),
    latest id (uploads l) = Some u → uploadsByID l !! id = Some u.

(** The two mutating operations, as data. *)
Inductive mutation : Type :=
| Insert (d : dbstore.Dump)
| Refresh (us : list shared.Dump).

Definition mutate (l : UploadsDataLoader) (m : mutation) : UploadsDataLoader :=
  match m with
  | Insert d => AddUpload l d
  | Refresh us => SetUploadInCacheMap l us
  end.

(** What a history of mutations appended to the sequence ... *)
Definition inserted (h : list mutation) : list shared.Dump :=
  h ≫= λ m, match m with Insert d => [sharedDump d] | Refresh _ => [] end.

(** ... and what it wrote to the map, in program order. *)
Definition written (h : list mutation) : list shared.Dump :=
  h ≫= λ m, match m with Insert d => [sharedDump d] | Refresh us => us end.

(** ** The request state *)

(** [requestArgs], as the composite literal in [SetLocalGitTreeTranslator]
    fills it. *)
Record requestArgs (Repo : Type) : Type := mkRequestArgs {
  repo : Repo;
  commit : string;
  path : string
}.

Arguments mkRequestArgs {Repo} repo commit path.
Arguments repo {Repo} r.
Arguments commit {Repo} r.
Arguments path {Repo} r.

(** What the file imports and calls but does not define: the types of the
    collaborators it holds, and the three constructors [NewHunkCache],
    [NewGitTreeTranslator] and [newCommitCache].  The code of the file is
    written once, against this interface. *)
Class Collaborators : Type := {
  SubRepoPermissionChecker : Type;   (* authz.SubRepoPermissionChecker *)
  Client : Type;                     (* gitserver.Client *)
  Repo : Type;                       (* *types.Repo *)
  GitserverClient : Type;            (* shared.GitserverClient *)
  HunkCache : Type;
  NewHunkCache : Z → HunkCache + error;
  Translator : Type;                 (* the interface GitTreeTranslator *)
  NewGitTreeTranslator : Client → requestArgs Repo → HunkCache → Translator;
  CommitCache : Type;
  newCommitCache : GitserverClient → CommitCache
}.

Section RequestState.

Context `{C : Collaborators}.

(** [type RequestState struct].  [dataLoader] is a pointer and the next
    two fields are interfaces: [None] is [nil]. *)
Record RequestState : Type := mkRequestState {
  dataLoader : option UploadsDataLoader;
  GitTreeTranslator : option Translator;
  commitCache : option CommitCache;
  maximumIndexesPerMonikerSearch : Z;
  authChecker : option SubRepoPermissionChecker
}.

(** [&RequestState{}] *)
Definition emptyRequestState : RequestState :=
  mkRequestState None None None 0 None.

Definition GetCacheUploads (r : RequestState) : run (list shared.Dump) :=
  match dataLoader r with
  | None => Panics NilDereference
  | Some l => Returns (uploads l)
  end.

(** The condition [index < 0 || index >= len(r.dataLoader.uploads)] is
    evaluated left to right, the pointer is followed only when the first
    test fails. *)
Definition GetCacheUploadsAtIndex (r : RequestState) (index : Z)
  : run shared.Dump :=
  if index <? 0 then Returns shared.zero
  else match dataLoader r with
       | None => Panics NilDereference
       | Some l =>
           if index >=? len (uploads l) then Returns shared.zero
           else slice_at (uploads l) index
       end.

Definition SetAuthChecker (r : RequestState)
    (checker : option SubRepoPermissionChecker) : RequestState :=
  {| dataLoader := dataLoader r;
     GitTreeTranslator := GitTreeTranslator r;
     commitCache := commitCache r;
     maximumIndexesPerMonikerSearch := maximumIndexesPerMonikerSearch r;
     authChecker := checker |}.

Definition SetUploadsDataLoader (r : RequestState)
    (ds : list dbstore.Dump) : RequestState :=
  {| dataLoader := Some (foldl AddUpload NewUploadsDataLoader ds);
     GitTreeTranslator := GitTreeTranslator r;
     commitCache := commitCache r;
     maximumIndexesPerMonikerSearch := maximumIndexesPerMonikerSearch r;
     authChecker := authChecker r |}.

(** Returns the state after the call and the [error] result ([None] is
    [nil]).  On the error path the receiver is left as it was. *)
Definition SetLocalGitTreeTranslator (r : RequestState) (client : Client)
    (rp : Repo) (cmt pth : string) (hunkCacheSize : Z)
  : RequestState * option error :=
  match NewHunkCache hunkCacheSize with
  | inr err => (r, Some err)
  | inl hunkCache =>
      let args := mkRequestArgs rp cmt pth in
      ({| dataLoader := dataLoader r;
          GitTreeTranslator := Some (NewGitTreeTranslator client args hunkCache);
          commitCache := commitCache r;
          maximumIndexesPerMonikerSearch := maximumIndexesPerMonikerSearch r;
          authChecker := authChecker r |}, None)
  end.

Definition SetLocalCommitCache (r : RequestState) (client : GitserverClient)
  : RequestState :=
  {| dataLoader := dataLoader r;
     GitTreeTranslator := GitTreeTranslator r;
     commitCache := Some (newCommitCache client);
     maximumIndexesPerMonikerSearch := maximumIndexesPerMonikerSearch r;
     authChecker := authChecker r |}.

Definition SetMaximumIndexesPerMonikerSearch (r : RequestState)
    (maxNumber : Z) : RequestState :=
  {| dataLoader := dataLoader r;
     GitTreeTranslator := GitTreeTranslator r;
     commitCache := commitCache r;
     maximumIndexesPerMonikerSearch := maxNumber;
     authChecker := authChecker r |}.

(** The result type is [*RequestState] alone: the [error] that
    [SetLocalGitTreeTranslator] returns is an expression statement's
    value, dropped by [fst]. *)
Definition NewRequestState (ds : list dbstore.Dump)
    (checker : option SubRepoPermissionChecker)
    (client : Client) (rp : Repo) (cmt pth : string)
    (gitclient : GitserverClient) (maxIndexes hunkCacheSize : Z)
  : RequestState :=
  let r := emptyRequestState in
  let r := SetUploadsDataLoader r ds in
  let r := SetAuthChecker r checker in
  let r := fst (SetLocalGitTreeTranslator r client rp cmt pth hunkCacheSize) in
  let r := SetLocalCommitCache r gitclient in
  let r := SetMaximumIndexesPerMonikerSearch r maxIndexes in
  r.

(** A scope all of whose caches are in place. *)
Definition usable (r : RequestState) : Prop :=
  is_Some (dataLoader r) ∧ is_Some (GitTreeTranslator r) ∧
  is_Some (commitCache r).

(** A scope some of whose caches are in place, and not all. *)
Definition partially_initialized (r : RequestState) : Prop :=
  (is_Some (dataLoader r) ∨ is_Some (GitTreeTranslator r) ∨
   is_Some (commitCache r)) ∧ ¬ usable r.

End RequestState.

Arguments RequestState C : clear implicits.

(** ** The collaborators as the specification describes them *)

Module Wiring.

(** Modelled from the spec: [NewHunkCache] is not in the file.  The hunk
    cache is bounded by the given capacity, and its construction fails with
    a configuration error if the capacity is not positive. *)
Record hunkCache : Type := mkHunkCache { capacity : Z }.

Definition configurationError : error :=
  errorString "must provide a positive size".

Definition newHunkCache (size : Z) : hunkCache + error :=
  if size <=? 0 then inr configurationError
  else inl (mkHunkCache size).

(** Modelled from the spec: [NewGitTreeTranslator] is not in the file.  The
    translation cache is bound to the (repository, commit, path) triple and
    backed by the hunk cache. *)
Record translator : Type := mkTranslator {
  client : string;
  localRequestArgs : requestArgs string;
  hunks : hunkCache
}.

(** Modelled from the spec: [newCommitCache] is not in the file.  The
    commit cache is backed by the ancestry-query client. *)
Record cache : Type := mkCache { gitserverClient : string }.

(** Handles of external services are named by strings. *)
#[export] Instance collaborators : Collaborators := {|
  SubRepoPermissionChecker := string;
  Client := string;
  Repo := string;
  GitserverClient := string;
  HunkCache := hunkCache;
  NewHunkCache := newHunkCache;
  Translator := translator;
  NewGitTreeTranslator := mkTranslator;
  CommitCache := cache;
  newCommitCache := mkCache
|}.

End Wiring.

(** ** The methods as atomic steps around [cacheMutex] *)

Module Interleaving.

(** [sync.RWMutex]: whether a writer holds it, and how many readers do. *)
Record RWMutex : Type := mkRWMutex { writer : bool; readers : nat }.

Definition unlocked : RWMutex := mkRWMutex false 0.

(** The loader with its third field. *)
Record memory : Type := mkMemory {
  loader : UploadsDataLoader;
  cacheMutex : RWMutex
}.

(** The statements of the five methods that touch the lock or a view. *)
Inductive step : Type :=
| Lock                               (* l.cacheMutex.Lock() *)
| Unlock                             (* l.cacheMutex.Unlock() *)
| RLock                              (* l.cacheMutex.RLock() *)
| RUnlock                            (* l.cacheMutex.RUnlock() *)
| AppendUploads (dump : shared.Dump) (* l.uploads = append(l.uploads, dump) *)
| StoreByID (u : shared.Dump)        (* l.uploadsByID[u.ID] = u *)
| LoadUploads                        (* r.dataLoader.uploads *)
| LoadByID (id : Z).                 (* l.uploadsByID[id] *)

(** What a step hands back to the method that runs it. *)
Inductive answer : Type :=
| Done
| Uploads (us : list shared.Dump)
| Entry (e : option shared.Dump).

(** What a method returns. *)
Inductive value : Type :=
| VUnit
| VUploads (us : list shared.Dump)
| VDump (d : run shared.Dump)
| VLookup (upload : shared.Dump) (ok : bool).

(** A method body: its steps in program order, each continuing with the
    answer it got, up to the [return]. *)
Inductive prog : Type :=
| Ret (v : value)
| Act (s : step) (k : answer → prog).

(** A run of steps that ignore their answers, then the rest. *)
Fixpoint steps (ss : list step) (rest : prog) : prog :=
  match ss with
  | [] => rest
  | s :: ss' => Act s (λ _, steps ss' rest)
  end.

(** [AddUpload]: [Lock], the two writes, and the deferred [Unlock]. *)
Definition AddUpload_body (d : dbstore.Dump) : prog :=
  let dump := sharedDump d in
  steps [Lock; AppendUploads dump; StoreByID dump; Unlock] (Ret VUnit).

(** [SetUploadInCacheMap]: [Lock], one store per element, [Unlock]. *)
Definition SetUploadInCacheMap_body (us : list shared.Dump) : prog :=
  steps (Lock :: (StoreByID <$> us) ++ [Unlock]) (Ret VUnit).

(** [GetUploadFromCacheMap]: [RLock], the map read, [RUnlock]. *)
Definition GetUploadFromCacheMap_body (id : Z) : prog :=
  Act RLock (λ _,
  Act (LoadByID id) (λ a,
  Act RUnlock (λ _,
  Ret match a with
      | Entry (Some upload) => VLookup upload true
      | _ => VLookup shared.zero false
      end))).

(** [GetCacheUploads]: the read of the slice, and nothing else. *)
Definition GetCacheUploads_body : prog :=
  Act LoadUploads (λ a,
  Ret match a with
      | Uploads us => VUploads us
      | _ => VUploads []
      end).

(** [GetCacheUploadsAtIndex]: the read of the slice for [len], and a
    second one for the element. *)
Definition GetCacheUploadsAtIndex_body (index : Z) : prog :=
  if index <? 0 then Ret (VDump (Returns shared.zero))
  else
    Act LoadUploads (λ a,
    match a with
    | Uploads us =>
        if index >=? len us then Ret (VDump (Returns shared.zero))
        else Act LoadUploads (λ b,
             match b with
             | Uploads us' => Ret (VDump (slice_at us' index))
             | _ => Ret (VDump (Panics IndexOutOfRange))
             end)
    | _ => Ret (VDump (Panics IndexOutOfRange))
    end).

(** One step on the memory; [None] when the step cannot run now (a lock
    that is taken, an unlock of a lock that is not held). *)
Definition perform (s : step) (m : memory) : option (memory * answer) :=
  let l := loader m in
  let mu := cacheMutex m in
  match s with
  | Lock =>
      if negb (writer mu) && (readers mu =? 0)%nat
      then Some (mkMemory l (mkRWMutex true 0), Done) else None
  | Unlock =>
      if writer mu
      then Some (mkMemory l (mkRWMutex false (readers mu)), Done) else None
  | RLock =>
      if negb (writer mu)
      then Some (mkMemory l (mkRWMutex false (S (readers mu))), Done)
      else None
  | RUnlock =>
      match readers mu with
      | O => None
      | S n => Some (mkMemory l (mkRWMutex (writer mu) n), Done)
      end
  | AppendUploads dump =>
      Some (mkMemory (mkLoader (uploads l ++ [dump]) (uploadsByID l)) mu, Done)
  | StoreByID u =>
      Some (mkMemory (mkLoader (uploads l) (storeByID (uploadsByID l) u)) mu, Done)
  | LoadUploads => Some (m, Uploads (uploads l))
  | LoadByID id => Some (m, Entry (uploadsByID l !! id))
  end.

(** A method that runs alone, to its [return]. *)
Fixpoint exec (p : prog) (m : memory) : option (memory * value) :=
  match p with
  | Ret v => Some (m, v)
  | Act s k =>
      match perform s m with
      | Some (m', a) => exec (k a) m'
      | None => None
      end
  end.

(** Goroutines that share the memory: thread [i] takes one step. *)
Definition config : Type := memory * list prog.

Definition advance (i : nat) (c : config) : option config :=
  match c.2 !! i with
  | Some (Act s k) =>
      match perform s c.1 with
      | Some (m', a) => Some (m', <[i := k a]> c.2)
      | None => None
      end
  | _ => None
  end.

(** A schedule names the thread that moves at each tick. *)
Fixpoint schedule (sched : list nat) (c : config) : option config :=
  match sched with
  | [] => Some c
  | i :: rest =>
      match advance i c with
      | Some c' => schedule rest c'
      | None => None
      end
  end.

(** What the calling goroutine holds. *)
Inductive held : Type := Nothing | ReadLock | WriteLock.

Definition is_read (s : step) : bool :=
  match s with LoadUploads | LoadByID _ => true | _ => false end.

Definition is_write (s : step) : bool :=
  match s with AppendUploads _ | StoreByID _ => true | _ => false end.

(** The locking discipline of a method body that starts holding [h]: a
    view is read only under the lock, written only under the write lock,
    and the lock is released by the time the method returns, whatever the
    steps answer. *)
Inductive guarded : held → prog → Prop :=
| guarded_ret v : guarded Nothing (Ret v)
| guarded_lock k :
    (∀ a, guarded WriteLock (k a)) → guarded Nothing (Act Lock k)
| guarded_unlock k :
    (∀ a, guarded Nothing (k a)) → guarded WriteLock (Act Unlock k)
| guarded_rlock k :
    (∀ a, guarded ReadLock (k a)) → guarded Nothing (Act RLock k)
| guarded_runlock k :
    (∀ a, guarded Nothing (k a)) → guarded ReadLock (Act RUnlock k)
| guarded_read h s k :
    is_read s = true → h ≠ Nothing →
    (∀ a, guarded h (k a)) → guarded h (Act s k)
| guarded_write s k :
    is_write s = true →
    (∀ a, guarded WriteLock (k a)) → guarded WriteLock (Act s k).

End Interleaving.

(** ** Inputs of the examples *)

(** Two uploads used in the examples below. *)
Definition upload1 : dbstore.Dump :=
  dbstore.mkDump 1 "deadbeef" "sub1/" true 100 "completed" None (Some 101)
    (Some 102) None 0 0 50 "github.com/a/b" "lsif-go" "1.0" (Some 7).

Definition upload2 : dbstore.Dump :=
  dbstore.mkDump 2 "cafebabe" "sub2/" false 200 "completed" None (Some 201)
    (Some 202) None 1 2 50 "github.com/a/b" "lsif-tsc" "2.1" None.

(** [upload1] again, with other attributes. *)
Definition upload1' : dbstore.Dump :=
  dbstore.mkDump 1 "0badf00d" "sub3/" false 300 "completed" None None None
    None 0 0 50 "github.com/a/b" "scip-go" "3.0" None.

(** A scope built from two uploads. *)
Definition example_scope : RequestState Wiring.collaborators :=
  NewRequestState (C := Wiring.collaborators) [upload1; upload2]
    (Some "checker") "client" "repo" "deadbeef" "main.go" "gitclient" 50 100.

(** A scope whose only upload is the zero value of the storage record. *)
Definition zero_scope : RequestState Wiring.collaborators :=
  NewRequestState (C := Wiring.collaborators) [dbstore.zero] None "client"
    "repo" "deadbeef" "main.go" "gitclient" 50 100.

(** * Properties *)

(** ** Last write wins: facts about [latest] and the two folds *)

Lemma latest_app (id : Z) (us vs : list shared.Dump) :
  latest id (us ++ vs) =
  match latest id vs with Some v => Some v | None => latest id us end.
Proof.
  induction us as [|u us IH]; simpl.
  - by destruct (latest id vs).
  - rewrite IH. by destruct (latest id vs).
Qed.

Lemma latest_Some_ID (id : Z) (us : list shared.Dump) (u : shared.Dump) :
  latest id us = Some u → shared.ID u = id ∧ u ∈ us.
Proof.
  revert u. induction us as [|v us IH]; intros u; simpl; [done|].
  destruct (latest id us) as [w|] eqn:E.
  - intros [= <-]. destruct (IH w eq_refl) as [? ?]. split; [done|].
    apply elem_of_cons; by right.
  - case_decide; [|done]. intros [= <-]. split; [done|]. apply elem_of_cons; by left.
Qed.

Lemma latest_None (id : Z) (us : list shared.Dump) :
  latest id us = None ↔ ∀ u, u ∈ us → shared.ID u ≠ id.
Proof.
  induction us as [|v us IH]; simpl.
  - split; [|done]. intros _ u Hu. by apply elem_of_nil in Hu.
  - destruct (latest id us) as [w|] eqn:E.
    + split; [done|]. intros H. exfalso.
      apply latest_Some_ID in E as [Hid Hin].
      apply (H w); [apply elem_of_cons; by right | done].
    + case_decide as Hv.
      * split; [done|]. intros H. exfalso. apply (H v); [apply elem_of_cons; by left | done].
      * split; [|done]. intros _ u [->|Hu]%elem_of_cons; [done|].
        by apply IH.
Qed.

(** [latest] really is the last occurrence: nothing after it has the id. *)
Lemma latest_Some_split (id : Z) (us : list shared.Dump) (u : shared.Dump) :
  latest id us = Some u ↔
  ∃ pre post, us = pre ++ u :: post ∧ shared.ID u = id ∧
              ∀ v, v ∈ post → shared.ID v ≠ id.
Proof.
  split.
  - induction us as [|v us IH]; simpl; [done|].
    destruct (latest id us) as [w|] eqn:E.
    + intros [= <-]. destruct (IH eq_refl) as (pre & post & -> & Hid & Hpost).
      by exists (v :: pre), post.
    + case_decide as Hv; [|done]. intros [= <-].
      exists [], us. split; [done|]. split; [done|]. by apply latest_None.
  - intros (pre & post & -> & Hid & Hpost).
    rewrite latest_app. simpl.
    apply latest_None in Hpost. rewrite Hpost.
    by rewrite decide_True.
Qed.

Lemma lookup_foldl_storeByID (us : list shared.Dump)
    (m : gmap Z shared.Dump) (id : Z) :
  foldl storeByID m us !! id =
  match latest id us with Some v => Some v | None => m !! id end.
Proof.
  revert m. induction us as [|u us IH]; intros m; simpl; [done|].
  rewrite IH. destruct (latest id us); [done|].
  unfold storeByID. rewrite lookup_insert. by case_decide.
Qed.

Lemma uploads_foldl_AddUpload (ds : list dbstore.Dump) (l : UploadsDataLoader) :
  uploads (foldl AddUpload l ds) = uploads l ++ (sharedDump <$> ds).
Proof.
  revert l. induction ds as [|d ds IH]; intros l; simpl.
  - by rewrite app_nil_r.
  - rewrite IH. simpl. by rewrite <- app_assoc.
Qed.

Lemma uploadsByID_foldl_AddUpload (ds : list dbstore.Dump)
    (l : UploadsDataLoader) :
  uploadsByID (foldl AddUpload l ds) =
  foldl storeByID (uploadsByID l) (sharedDump <$> ds).
Proof.
  revert l. induction ds as [|d ds IH]; intros l; simpl; [done|].
  by rewrite IH.
Qed.

Lemma cache_invariant_empty : cache_invariant NewUploadsDataLoader.
Proof. intros id. simpl. apply lookup_empty. Qed.

Lemma cache_invariant_latest_inserted_wins (l : UploadsDataLoader) :
  cache_invariant l → latest_inserted_wins l.
Proof. intros Hl id u Hu. by rewrite Hl. Qed.

Lemma refresh_adds_foreign_identifier :
  cache_invariant NewUploadsDataLoader ∧
  ¬ cache_invariant (SetUploadInCacheMap NewUploadsDataLoader [sharedDump upload1]).
Proof.
  split; [apply cache_invariant_empty|]. intros H. specialize (H 1).
  vm_compute in H. discriminate H.
Qed.

Lemma AddUpload_preserves_invariant (l : UploadsDataLoader) (d : dbstore.Dump) :
  cache_invariant l → cache_invariant (AddUpload l d).
Proof.
  intros Hl id. unfold AddUpload. simpl.
  rewrite latest_app. simpl. rewrite lookup_insert.
  case_decide as Hid; [done|]. apply Hl.
Qed.

Lemma cache_invariant_inserts (ds : list dbstore.Dump) (l : UploadsDataLoader) :
  cache_invariant l → cache_invariant (foldl AddUpload l ds).
Proof.
  revert l. induction ds as [|d ds IH]; intros l Hl; simpl; [done|].
  apply IH. by apply AddUpload_preserves_invariant.
Qed.

Lemma inserted_snoc (h : list mutation) (m : mutation) :
  inserted (h ++ [m]) =
  inserted h ++ match m with Insert d => [sharedDump d] | Refresh _ => [] end.
Proof. unfold inserted. rewrite bind_app. simpl. by rewrite app_nil_r. Qed.

Lemma written_snoc (h : list mutation) (m : mutation) :
  written (h ++ [m]) =
  written h ++ match m with Insert d => [sharedDump d] | Refresh us => us end.
Proof. unfold written. rewrite bind_app. simpl. by rewrite app_nil_r. Qed.

Lemma inserted_Insert (ds : list dbstore.Dump) :
  inserted (Insert <$> ds) = sharedDump <$> ds.
Proof. induction ds as [|d ds IH]; simpl; [done|]. by f_equal. Qed.

Lemma foldl_mutate_Insert (ds : list dbstore.Dump) (l : UploadsDataLoader) :
  foldl mutate l (Insert <$> ds) = foldl AddUpload l ds.
Proof. revert l. induction ds as [|d ds IH]; intros l; simpl; [done|]. apply IH. Qed.

(** The sequence after a history is what the inserts appended; the map
    answers with the last write of the history, insert or refresh. *)
Lemma history_views (h : list mutation) :
  uploads (foldl mutate NewUploadsDataLoader h) = inserted h ∧
  ∀ id, uploadsByID (foldl mutate NewUploadsDataLoader h) !! id
        = latest id (written h).
Proof.
  induction h as [|m h [IHu IHm]] using rev_ind.
  - split; [done|]. intros id. apply lookup_empty.
  - rewrite foldl_app. simpl. rewrite inserted_snoc, written_snoc.
    destruct m as [d|us]; simpl.
    + split; [by rewrite IHu|]. intros id.
      rewrite latest_app. simpl. rewrite lookup_insert.
      case_decide as Hid; [done|]. apply IHm.
    + split; [by rewrite IHu, app_nil_r|]. intros id.
      rewrite lookup_foldl_storeByID, latest_app, IHm. done.
Qed.

Lemma inserted_sublist_written (h : list mutation) (u : shared.Dump) :
  u ∈ inserted h → u ∈ written h.
Proof.
  unfold inserted, written. rewrite !list_elem_of_bind.
  intros (m & Hu & Hm). exists m. split; [|done].
  destruct m as [d|us]; [done|]. by apply elem_of_nil in Hu.
Qed.

(** ** The upload cache: insert, lookup, refresh *)

Example insert_duplicate_identifier :
  let l := foldl AddUpload NewUploadsDataLoader [upload1; upload2; upload1'] in
  length (uploads l) = 3%nat ∧
  GetUploadFromCacheMap l 1 = (sharedDump upload1', true) ∧
  GetUploadFromCacheMap l 2 = (sharedDump upload2, true) ∧
  GetUploadFromCacheMap l 99 = (shared.zero, false).
Proof. vm_compute. done. Qed.

(** C2, as stated, fails: not every mutation keeps the map on the most
    recently inserted uploads.  Insert an upload with identifier 1, then
    refresh with another upload of identifier 1: the identifier is in the
    ordered sequence, the most recently inserted upload with it is the
    first one, and the map now answers with the second. *)
Lemma refresh_breaks_cache_invariant :
  ¬ (∀ (l : UploadsDataLoader) (m : mutation),
       cache_invariant l → latest_inserted_wins (mutate l m)).
Proof.
  intros H.
  assert (Hinv : cache_invariant (AddUpload NewUploadsDataLoader upload1))
    by apply AddUpload_preserves_invariant, cache_invariant_empty.
  specialize (H _ (Refresh [sharedDump upload1']) Hinv 1 (sharedDump upload1)
                eq_refl).
  vm_compute in H. discriminate H.
Qed.

(** C2, amended: after any history of inserts and refreshes on a fresh
    cache, the ordered sequence is what the inserts appended, in order; the
    map has, for every identifier, the last upload written under it by an
    insert or a refresh (and no entry if none was), each entry stored under
    its own identifier; so every identifier of the sequence has an entry;
    and when the history has inserts only, the invariant of the data model
    holds. *)
Theorem mutations_last_write_wins (h : list mutation) :
  let l := foldl mutate NewUploadsDataLoader h in
  uploads l = inserted h ∧
  (∀ id, uploadsByID l !! id = latest id (written h)) ∧
  (∀ id u, uploadsByID l !! id = Some u → shared.ID u = id) ∧
  (∀ u, u ∈ uploads l → is_Some (uploadsByID l !! shared.ID u)) ∧
  (∀ ds, h = Insert <$> ds → cache_invariant l).
Proof.
  intros l. destruct (history_views h) as [Hu Hm]. fold l in Hu, Hm.
  split; [done|]. split; [done|]. split; [|split].
  - intros id u. rewrite Hm. intros Hl. by apply latest_Some_ID in Hl as [? _].
  - intros u. rewrite Hu, Hm. intros Hin%inserted_sublist_written.
    destruct (latest (shared.ID u) (written h)) as [v|] eqn:E; [by eexists|].
    exfalso. eapply latest_None in E; [|exact Hin]. done.
  - intros ds ->. unfold l. rewrite foldl_mutate_Insert.
    apply cache_invariant_inserts, cache_invariant_empty.
Qed.

(** C3: after any sequence of [AddUpload] calls on a fresh cache, a lookup
    finds an identifier iff some inserted upload carried it, it then returns
    the translation of the last inserted upload with that identifier (no
    later insert carries the identifier), it returns the zero value when it
    finds nothing, and the ordered sequence has one element per call, in
    call order, duplicates included.  The list [ds] is arbitrary, so this
    holds after each call. *)
Theorem lookup_after_inserts (ds : list dbstore.Dump) (id : Z) :
  let l := foldl AddUpload NewUploadsDataLoader ds in
  let found := GetUploadFromCacheMap l id in
  (found.2 = true ↔ ∃ d, d ∈ ds ∧ dbstore.ID d = id) ∧
  (found.2 = true →
     ∃ pre d post, ds = pre ++ d :: post ∧ dbstore.ID d = id ∧
                   (∀ d', d' ∈ post → dbstore.ID d' ≠ id) ∧
                   found.1 = sharedDump d) ∧
  (found.2 = false → found.1 = shared.zero) ∧
  length (uploads l) = length ds ∧
  uploads l = sharedDump <$> ds.
Proof.
  intros l found.
  assert (Hm : uploadsByID l !! id = latest id (sharedDump <$> ds)).
  { unfold l. rewrite uploadsByID_foldl_AddUpload, lookup_foldl_storeByID.
    simpl. rewrite lookup_empty. by destruct (latest id _). }
  assert (Hu : uploads l = sharedDump <$> ds).
  { unfold l. by rewrite uploads_foldl_AddUpload. }
  unfold found, GetUploadFromCacheMap. rewrite Hm.
  destruct (latest id (sharedDump <$> ds)) as [u|] eqn:E; simpl.
  - apply latest_Some_split in E as (pre & post & Hds & Hid & Hpost).
    apply fmap_app_inv in Hds as (pre' & rest & -> & Hrest & ->).
    symmetry in Hrest.
    apply fmap_cons_inv in Hrest as (d & post' & -> & -> & ->).
    split; [|split; [|split; [done|split]]].
    + split; [|done]. intros _. exists d. split; [|done].
      apply elem_of_app. right. apply elem_of_cons. by left.
    + intros _. exists pre', d, post'. repeat split; try done.
      intros d' Hd'. apply (Hpost (sharedDump d')).
      apply list_elem_of_fmap. by exists d'.
    + by rewrite Hu, length_fmap.
    + done.
  - split; [|split; [done|split; [done|split]]].
    + split; [done|]. intros (d & Hd & Hid). exfalso.
      apply (proj1 (latest_None _ _) E (sharedDump d)); [|exact Hid].
      apply list_elem_of_fmap. by exists d.
    + by rewrite Hu, length_fmap.
    + done.
Qed.

(** C7: the upload that [AddUpload] appends to the sequence and stores in
    the map carries every attribute of the storage record unchanged
    (identifier, commit, root, visibility flag, the four lifecycle
    timestamps, processing state and failure message, the two retry
    counters, repository id and name, indexer name and version, associated
    index), and the storage record can be read back from it: nothing is
    dropped or defaulted. *)
Theorem AddUpload_translation_lossless (l : UploadsDataLoader) (d : dbstore.Dump) :
  let u := sharedDump d in
  last (uploads (AddUpload l d)) = Some u ∧
  uploadsByID (AddUpload l d) !! dbstore.ID d = Some u ∧
  (shared.ID u = dbstore.ID d ∧
   shared.Commit u = dbstore.Commit d ∧
   shared.Root u = dbstore.Root d ∧
   shared.VisibleAtTip u = dbstore.VisibleAtTip d ∧
   shared.UploadedAt u = dbstore.UploadedAt d ∧
   shared.StartedAt u = dbstore.StartedAt d ∧
   shared.FinishedAt u = dbstore.FinishedAt d ∧
   shared.ProcessAfter u = dbstore.ProcessAfter d ∧
   shared.State u = dbstore.State d ∧
   shared.FailureMessage u = dbstore.FailureMessage d ∧
   shared.NumResets u = dbstore.NumResets d ∧
   shared.NumFailures u = dbstore.NumFailures d ∧
   shared.RepositoryID u = dbstore.RepositoryID d ∧
   shared.RepositoryName u = dbstore.RepositoryName d ∧
   shared.Indexer u = dbstore.Indexer d ∧
   shared.IndexerVersion u = dbstore.IndexerVersion d ∧
   shared.AssociatedIndexID u = dbstore.AssociatedIndexID d) ∧
  dbstoreDump u = d.
Proof.
  intros u. split; [|split; [|split]].
  - unfold AddUpload. simpl. apply last_snoc.
  - unfold AddUpload. simpl. apply lookup_insert_eq.
  - repeat split.
  - by destruct d.
Qed.

(** ** The request state: construction and accessors *)

Section RequestStateFacts.

Context `{C : Collaborators}.

Lemma slice_at_in_range {A : Type} (s : list A) (i : Z) :
  0 ≤ i < len s → ∃ a, s !! Z.to_nat i = Some a ∧ slice_at s i = Returns a.
Proof.
  intros Hi. unfold slice_at, len in *.
  destruct (i <? 0) eqn:E1; [lia|]. destruct (_ <=? i) eqn:E2; [lia|]. simpl.
  destruct (lookup_lt_is_Some_2 s (Z.to_nat i)) as [a Ha]; [lia|].
  exists a. by rewrite Ha.
Qed.

Lemma GetCacheUploadsAtIndex_outside (r : RequestState C)
    (l : UploadsDataLoader) (index : Z) :
  dataLoader r = Some l → ¬ (0 ≤ index < len (uploads l)) →
  GetCacheUploadsAtIndex r index = Returns shared.zero.
Proof.
  intros Hl Hout. unfold GetCacheUploadsAtIndex. rewrite Hl.
  destruct (index <? 0) eqn:E1; [done|].
  destruct (index >=? len (uploads l)) eqn:E2; [done|]. lia.
Qed.

Lemma GetCacheUploadsAtIndex_inside (r : RequestState C)
    (l : UploadsDataLoader) (index : Z) :
  dataLoader r = Some l → 0 ≤ index < len (uploads l) →
  ∃ u, uploads l !! Z.to_nat index = Some u ∧
       GetCacheUploadsAtIndex r index = Returns u.
Proof.
  intros Hl Hin. unfold GetCacheUploadsAtIndex. rewrite Hl.
  destruct (index <? 0) eqn:E1; [lia|].
  destruct (index >=? len (uploads l)) eqn:E2; [lia|].
  by apply slice_at_in_range.
Qed.

Lemma dataLoader_NewRequestState (ds : list dbstore.Dump)
    (checker : option SubRepoPermissionChecker) (client : Client) (rp : Repo)
    (cmt pth : string) (gitclient : GitserverClient)
    (maxIndexes hunkCacheSize : Z) :
  dataLoader (NewRequestState ds checker client rp cmt pth gitclient
                maxIndexes hunkCacheSize)
  = Some (foldl AddUpload NewUploadsDataLoader ds).
Proof.
  unfold NewRequestState, SetLocalGitTreeTranslator.
  by destruct (NewHunkCache hunkCacheSize).
Qed.

(** Whenever the hunk cache cannot be built, [NewRequestState] still
    returns a scope: the upload cache and the commit cache are in place,
    the translator is [nil], and nothing of the error is left. *)
Lemma NewRequestState_hunk_cache_failure (ds : list dbstore.Dump)
    (checker : option SubRepoPermissionChecker) (client : Client) (rp : Repo)
    (cmt pth : string) (gitclient : GitserverClient)
    (maxIndexes hunkCacheSize : Z) (err : error) :
  NewHunkCache hunkCacheSize = inr err →
  NewRequestState ds checker client rp cmt pth gitclient maxIndexes
    hunkCacheSize
  = {| dataLoader := Some (foldl AddUpload NewUploadsDataLoader ds);
       GitTreeTranslator := None;
       commitCache := Some (newCommitCache gitclient);
       maximumIndexesPerMonikerSearch := maxIndexes;
       authChecker := checker |}.
Proof.
  intros Herr. unfold NewRequestState, SetLocalGitTreeTranslator.
  by rewrite Herr.
Qed.

(** C4: on a cache of length [L], the positional accessor returns the
    element at position [index] when [0 <= index < L], returns the empty
    upload for every other [index], negative ones and those from [L] on
    included, and never stops with a panic. *)
Theorem GetCacheUploadsAtIndex_tolerant (r : RequestState C)
    (l : UploadsDataLoader) (index : Z) (Hl : dataLoader r = Some l) :
  (0 ≤ index < len (uploads l) →
     ∃ u, uploads l !! Z.to_nat index = Some u ∧
          GetCacheUploadsAtIndex r index = Returns u) ∧
  (¬ (0 ≤ index < len (uploads l)) →
     GetCacheUploadsAtIndex r index = Returns shared.zero) ∧
  (∀ p, GetCacheUploadsAtIndex r index ≠ Panics p).
Proof.
  split; [by apply GetCacheUploadsAtIndex_inside|].
  split; [by apply GetCacheUploadsAtIndex_outside|].
  intros p. destruct (decide (0 ≤ index < len (uploads l))) as [Hin|Hout].
  - destruct (GetCacheUploadsAtIndex_inside r l index Hl Hin) as (u & _ & ->).
    done.
  - by rewrite (GetCacheUploadsAtIndex_outside r l index Hl Hout).
Qed.

(** C10: the positional accessor returns an upload and nothing else; for
    an index out of range it returns the zero upload, the same result as
    for an index in range whose element is the zero upload. *)
Theorem out_of_range_same_as_zero_element (r : RequestState C)
    (l : UploadsDataLoader) (i j : Z)
    (Hl : dataLoader r = Some l)
    (Hi : 0 ≤ i < len (uploads l))
    (Hz : uploads l !! Z.to_nat i = Some shared.zero)
    (Hj : ¬ (0 ≤ j < len (uploads l))) :
  GetCacheUploadsAtIndex r j = Returns shared.zero ∧
  GetCacheUploadsAtIndex r i = GetCacheUploadsAtIndex r j.
Proof.
  rewrite (GetCacheUploadsAtIndex_outside r l j Hl Hj).
  split; [done|].
  destruct (GetCacheUploadsAtIndex_inside r l i Hl Hi) as (u & Hu & ->).
  congruence.
Qed.

(** C5: a refresh leaves the ordered sequence as it was, hence its length
    and what [GetCacheUploads] returns; an identifier that no upload of the
    refresh set carries keeps its entry, or its absence; an identifier
    that some upload of the set carries gets the last such upload; no key
    of the map is removed. *)
Theorem refresh_frame (l : UploadsDataLoader) (us : list shared.Dump)
    (t : option Translator) (cc : option CommitCache) (mx : Z)
    (ac : option SubRepoPermissionChecker) :
  let l' := SetUploadInCacheMap l us in
  uploads l' = uploads l ∧
  length (uploads l') = length (uploads l) ∧
  GetCacheUploads (mkRequestState (Some l') t cc mx ac)
    = GetCacheUploads (mkRequestState (Some l) t cc mx ac) ∧
  (∀ id, (∀ u, u ∈ us → shared.ID u ≠ id) →
         uploadsByID l' !! id = uploadsByID l !! id) ∧
  (∀ id, (∃ u, u ∈ us ∧ shared.ID u = id) →
         ∃ u, latest id us = Some u ∧ uploadsByID l' !! id = Some u) ∧
  dom (uploadsByID l) ⊆ dom (uploadsByID l').
Proof.
  intros l'. split; [done|]. split; [done|]. split; [done|].
  assert (Hm : ∀ id, uploadsByID l' !! id =
      match latest id us with Some v => Some v | None => uploadsByID l !! id end).
  { intros id. apply lookup_foldl_storeByID. }
  split; [|split].
  - intros id Hnone. rewrite Hm. apply latest_None in Hnone. by rewrite Hnone.
  - intros id (u & Hu & Hid). rewrite Hm.
    destruct (latest id us) as [v|] eqn:E; [by exists v|].
    exfalso. by apply (proj1 (latest_None _ _) E u).
  - intros id. rewrite !elem_of_dom, Hm.
    by destruct (latest id us).
Qed.

(** C6: [GetCacheUploads] on a freshly built scope returns the
    translations of the supplied uploads, in the order supplied; and with
    two uploads of identifiers 1 and 2, bound 50 and capacity 100, it
    returns both in input order, position 0 holds the first, position 5
    gives the empty upload, identifier 2 is found with the second upload,
    and identifier 99 is not found. *)
Theorem construction_keeps_input_order (ds : list dbstore.Dump)
    (d1 d2 : dbstore.Dump)
    (checker : option SubRepoPermissionChecker) (client : Client) (rp : Repo)
    (cmt pth : string) (gitclient : GitserverClient)
    (maxIndexes hunkCacheSize : Z)
    (H1 : dbstore.ID d1 = 1) (H2 : dbstore.ID d2 = 2) :
  GetCacheUploads (NewRequestState ds checker client rp cmt pth gitclient
                     maxIndexes hunkCacheSize)
    = Returns (sharedDump <$> ds) ∧
  let r := NewRequestState [d1; d2] checker client rp cmt pth gitclient
             50 100 in
  GetCacheUploads r = Returns [sharedDump d1; sharedDump d2] ∧
  GetCacheUploadsAtIndex r 0 = Returns (sharedDump d1) ∧
  GetCacheUploadsAtIndex r 5 = Returns shared.zero ∧
  ∃ l, dataLoader r = Some l ∧
       GetUploadFromCacheMap l 2 = (sharedDump d2, true) ∧
       GetUploadFromCacheMap l 99 = (shared.zero, false).
Proof.
  split.
  - unfold GetCacheUploads. rewrite dataLoader_NewRequestState.
    by rewrite uploads_foldl_AddUpload.
  - intros r.
    assert (Hl : dataLoader r = Some (foldl AddUpload NewUploadsDataLoader [d1; d2]))
      by apply dataLoader_NewRequestState.
    split; [|split; [|split]].
    + unfold GetCacheUploads. by rewrite Hl.
    + unfold GetCacheUploadsAtIndex. by rewrite Hl.
    + unfold GetCacheUploadsAtIndex. by rewrite Hl.
    + eexists. split; [exact Hl|].
      unfold GetUploadFromCacheMap, AddUpload. simpl. rewrite H1, H2.
      split.
      * by rewrite lookup_insert_eq.
      * rewrite !lookup_insert_ne by done. by rewrite lookup_empty.
Qed.

(** C8, amended: the bound on the moniker-search batch is stored as
    given, whatever its sign, and is not validated; the capacity is handed
    to the constructor of the hunk cache, and [SetLocalGitTreeTranslator]
    returns that constructor's error to its caller and leaves the scope
    as it was, or else installs a translator over the new hunk cache. *)
Theorem configuration_inputs_at_construction (ds : list dbstore.Dump)
    (checker : option SubRepoPermissionChecker) (client : Client) (rp : Repo)
    (cmt pth : string) (gitclient : GitserverClient)
    (maxIndexes hunkCacheSize : Z) (r : RequestState C) :
  maximumIndexesPerMonikerSearch
    (NewRequestState ds checker client rp cmt pth gitclient maxIndexes
       hunkCacheSize) = maxIndexes ∧
  maximumIndexesPerMonikerSearch
    (SetMaximumIndexesPerMonikerSearch r maxIndexes) = maxIndexes ∧
  match NewHunkCache hunkCacheSize with
  | inr err =>
      SetLocalGitTreeTranslator r client rp cmt pth hunkCacheSize
      = (r, Some err)
  | inl hunkCache =>
      ∃ r', SetLocalGitTreeTranslator r client rp cmt pth hunkCacheSize
            = (r', None) ∧
            GitTreeTranslator r' =
              Some (NewGitTreeTranslator client (mkRequestArgs rp cmt pth)
                      hunkCache) ∧
            dataLoader r' = dataLoader r ∧
            commitCache r' = commitCache r ∧
            maximumIndexesPerMonikerSearch r' = maximumIndexesPerMonikerSearch r ∧
            authChecker r' = authChecker r
  end.
Proof.
  split; [done|]. split; [done|].
  unfold SetLocalGitTreeTranslator.
  destruct (NewHunkCache hunkCacheSize) as [hunkCache|err]; [|by destruct r].
  eexists. split; [done|]. done.
Qed.

End RequestStateFacts.

(** ** Construction with the collaborators of the specification *)

Lemma newHunkCache_rejects_nonpositive (size : Z) :
  size ≤ 0 ↔ Wiring.newHunkCache size = inr Wiring.configurationError.
Proof.
  unfold Wiring.newHunkCache. destruct (size <=? 0) eqn:E; split; try done; lia.
Qed.

(** C1, the code at capacity 0: [SetLocalGitTreeTranslator] does return the
    configuration error, but [NewRequestState] drops it and returns a scope
    whose upload cache, commit cache and bound are set and whose translator
    is [nil]. *)
Theorem NewRequestState_discards_configuration_error :
  let r0 := emptyRequestState (C := Wiring.collaborators) in
  let r := NewRequestState (C := Wiring.collaborators) [] None "client" "repo"
             "deadbeef" "main.go" "gitclient" 50 0 in
  SetLocalGitTreeTranslator r0 "client" "repo" "deadbeef" "main.go" 0
    = (r0, Some Wiring.configurationError) ∧
  r = mkRequestState (C := Wiring.collaborators)
        (Some NewUploadsDataLoader) None (Some (Wiring.mkCache "gitclient"))
        50 None ∧
  partially_initialized r.
Proof.
  intros r0 r. split; [done|].
  assert (Hr : r = mkRequestState (C := Wiring.collaborators)
        (Some NewUploadsDataLoader) None (Some (Wiring.mkCache "gitclient"))
        50 None).
  { exact (NewRequestState_hunk_cache_failure (C := Wiring.collaborators)
             [] None "client" "repo" "deadbeef" "main.go" "gitclient" 50 0
             Wiring.configurationError eq_refl). }
  split; [done|]. rewrite Hr. split.
  - left. simpl. by eexists.
  - intros (_ & [t Ht] & _). simpl in Ht. discriminate Ht.
Qed.

(** C8, as stated, fails: a bound of 0 on the moniker-search batch passes
    construction, and the scope returned is complete. *)
Lemma nonpositive_maxIndexes_accepted :
  ¬ (∀ (ds : list dbstore.Dump) (checker : option string)
       (client rp cmt pth gitclient : string) (maxIndexes hunkCacheSize : Z),
       usable (NewRequestState (C := Wiring.collaborators) ds checker client
                 rp cmt pth gitclient maxIndexes hunkCacheSize) →
       0 < maxIndexes ∧ 0 < hunkCacheSize).
Proof.
  intros H.
  destruct (H [] None "client" "repo" "deadbeef" "main.go" "gitclient" 0 100)
    as [Hpos _].
  - repeat split; simpl; by eexists.
  - lia.
Qed.

(** The accessor on a scope of two uploads, at positions 1, 2 and -1. *)
Lemma GetCacheUploadsAtIndex_tolerant_witness :
  dataLoader example_scope
    = Some (foldl AddUpload NewUploadsDataLoader [upload1; upload2]) ∧
  GetCacheUploadsAtIndex example_scope 1 = Returns (sharedDump upload2) ∧
  GetCacheUploadsAtIndex example_scope 2 = Returns shared.zero ∧
  GetCacheUploadsAtIndex example_scope (-1) = Returns shared.zero.
Proof.
  split; [reflexivity|].
  pose (l := foldl AddUpload NewUploadsDataLoader [upload1; upload2]).
  destruct (GetCacheUploadsAtIndex_tolerant example_scope l 1 eq_refl)
    as (Hin & _ & _).
  destruct (GetCacheUploadsAtIndex_tolerant example_scope l 2 eq_refl)
    as (_ & Hout & _).
  split; [|split].
  - destruct Hin as (u & Hu & ->); [unfold len; simpl; lia|].
    vm_compute in Hu. injection Hu as <-. reflexivity.
  - apply Hout. unfold len. simpl. lia.
  - reflexivity.
Defined.

(** A scope built from the zero storage record: position 0, in range,
    and position 7, out of range, give the same result. *)
Lemma out_of_range_same_as_zero_element_witness :
  dataLoader zero_scope
    = Some (foldl AddUpload NewUploadsDataLoader [dbstore.zero]) ∧
  GetCacheUploadsAtIndex zero_scope 7 = Returns shared.zero ∧
  GetCacheUploadsAtIndex zero_scope 0 = GetCacheUploadsAtIndex zero_scope 7.
Proof.
  split; [reflexivity|].
  apply (out_of_range_same_as_zero_element zero_scope
           (foldl AddUpload NewUploadsDataLoader [dbstore.zero]) 0 7).
  - reflexivity.
  - unfold len. simpl. lia.
  - reflexivity.
  - unfold len. simpl. lia.
Defined.

(** The end-to-end example on the scope of two uploads. *)
Lemma construction_keeps_input_order_witness :
  dbstore.ID upload1 = 1 ∧ dbstore.ID upload2 = 2 ∧
  GetCacheUploads example_scope
    = Returns [sharedDump upload1; sharedDump upload2] ∧
  GetCacheUploadsAtIndex example_scope 0 = Returns (sharedDump upload1) ∧
  GetCacheUploadsAtIndex example_scope 5 = Returns shared.zero.
Proof.
  split; [reflexivity|]. split; [reflexivity|].
  destruct (construction_keeps_input_order (C := Wiring.collaborators)
              [upload2; upload1'] upload1 upload2 (Some "checker") "client"
              "repo" "deadbeef" "main.go" "gitclient" 50 100 eq_refl eq_refl)
    as (_ & Hall & H0 & H5 & _).
  split; [exact Hall|]. split; [exact H0 | exact H5].
Defined.

(** ** The methods under interleaving *)

Import Interleaving.

Section InterleavingFacts.

Context `{C : Collaborators}.





Lemma exec_GetCacheUploads (l : UploadsDataLoader) (mu : RWMutex)
    (r : RequestState C) :
  dataLoader r = Some l →
  ∃ us, GetCacheUploads r = Returns us ∧
        exec GetCacheUploads_body (mkMemory l mu)
        = Some (mkMemory l mu, VUploads us).
Proof.
  intros Hl. exists (uploads l). unfold GetCacheUploads. by rewrite Hl.
Qed.

Lemma exec_GetCacheUploadsAtIndex (l : UploadsDataLoader) (mu : RWMutex)
    (r : RequestState C) (index : Z) :
  dataLoader r = Some l →
  exec (GetCacheUploadsAtIndex_body index) (mkMemory l mu)
  = Some (mkMemory l mu, VDump (GetCacheUploadsAtIndex r index)).
Proof.
  intros Hl.
  unfold GetCacheUploadsAtIndex_body, GetCacheUploadsAtIndex.
  rewrite Hl. destruct (index <? 0); [done|]. simpl.
  by destruct (index >=? len (uploads l)).
Qed.

Lemma guarded_stores (us : list shared.Dump) :
  guarded WriteLock (steps ((StoreByID <$> us) ++ [Unlock]) (Ret VUnit)).
Proof.
  induction us as [|u us IH]; simpl.
  - apply guarded_unlock. intros _. apply guarded_ret.
  - by apply guarded_write.
Qed.

Lemma guarded_AddUpload (d : dbstore.Dump) :
  guarded Nothing (AddUpload_body d).
Proof.
  apply guarded_lock; intros _.
  apply guarded_write; [done|]; intros _.
  apply guarded_write; [done|]; intros _.
  apply guarded_unlock; intros _. apply guarded_ret.
Qed.

Lemma guarded_SetUploadInCacheMap (us : list shared.Dump) :
  guarded Nothing (SetUploadInCacheMap_body us).
Proof. apply guarded_lock; intros _. apply guarded_stores. Qed.

Lemma guarded_GetUploadFromCacheMap (id : Z) :
  guarded Nothing (GetUploadFromCacheMap_body id).
Proof.
  apply guarded_rlock; intros _.
  apply guarded_read; [done|done|]; intros a.
  apply guarded_runlock; intros _. apply guarded_ret.
Qed.

Lemma unguarded_load (k : answer → prog) :
  ¬ guarded Nothing (Act LoadUploads k).
Proof. intros H. inversion H; subst. done. Qed.

Lemma unguarded_GetCacheUploads : ¬ guarded Nothing GetCacheUploads_body.
Proof. apply unguarded_load. Qed.

Lemma unguarded_GetCacheUploadsAtIndex (index : Z) :
  0 ≤ index → ¬ guarded Nothing (GetCacheUploadsAtIndex_body index).
Proof.
  intros Hi. unfold GetCacheUploadsAtIndex_body.
  destruct (index <? 0) eqn:E; [lia|]. apply unguarded_load.
Qed.

End InterleavingFacts.

(** C9, the code under two goroutines: [AddUpload], [SetUploadInCacheMap]
    and [GetUploadFromCacheMap] touch the views only under [cacheMutex];
    [GetCacheUploads] and [GetCacheUploadsAtIndex] (for an index that is not
    negative) read the ordered sequence without taking it.  So while one
    goroutine is inside [AddUpload], holding the write lock, after the
    append and before the store, another one completes [GetCacheUploads]
    and is handed the sequence with the new upload, at a moment when the
    map has no entry for it. *)
Theorem accessors_bypass_cacheMutex :
  (∀ d, guarded Nothing (AddUpload_body d)) ∧
  (∀ us, guarded Nothing (SetUploadInCacheMap_body us)) ∧
  (∀ id, guarded Nothing (GetUploadFromCacheMap_body id)) ∧
  ¬ guarded Nothing GetCacheUploads_body ∧
  (∀ index, 0 ≤ index → ¬ guarded Nothing (GetCacheUploadsAtIndex_body index)) ∧
  ∃ m,
    schedule [0; 0; 1]%nat
      (mkMemory NewUploadsDataLoader unlocked,
       [AddUpload_body upload1; GetCacheUploads_body])
    = Some (m, [steps [StoreByID (sharedDump upload1); Unlock] (Ret VUnit);
                Ret (VUploads [sharedDump upload1])]) ∧
    writer (cacheMutex m) = true ∧
    uploads (loader m) = [sharedDump upload1] ∧
    uploadsByID (loader m) = ∅.
Proof.
  split; [exact guarded_AddUpload|].
  split; [exact guarded_SetUploadInCacheMap|].
  split; [exact guarded_GetUploadFromCacheMap|].
  split; [exact unguarded_GetCacheUploads|].
  split; [exact unguarded_GetCacheUploadsAtIndex|].
  eexists. split; [reflexivity|]. done.
Qed.

(** * Further properties of the code *)

(** ** One insert on any cache *)

Lemma latest_is_Some (id : Z) (us : list shared.Dump) :
  is_Some (latest id us) ↔ id ∈ shared.ID <$> us.
Proof.
  rewrite list_elem_of_fmap. split.
  - intros [u Hu]. apply latest_Some_ID in Hu as [Hid Hin]. by exists u.
  - intros (u & -> & Hin). destruct (latest (shared.ID u) us) as [v|] eqn:E;
      [by eexists|].
    exfalso. by apply (proj1 (latest_None _ _) E u).
Qed.

Lemma dom_foldl_storeByID (us : list shared.Dump) (m : gmap Z shared.Dump) :
  dom (foldl storeByID m us) = dom m ∪ list_to_set (shared.ID <$> us).
Proof.
  apply set_eq. intros id.
  rewrite elem_of_union, elem_of_list_to_set, !elem_of_dom,
    lookup_foldl_storeByID, <- latest_is_Some.
  destruct (latest id us) as [v|]; split; eauto.
  - intros [?|[? ?]]; [done|discriminate].
Qed.

Lemma size_list_to_set_le (ids : list Z) :
  (size (list_to_set ids : gset Z) ≤ length ids)%nat.
Proof.
  induction ids as [|x ids IH].
  - rewrite list_to_set_nil, size_empty. simpl. lia.
  - rewrite list_to_set_cons, size_union_alt, size_singleton. simpl.
    assert (size (list_to_set ids ∖ {[x]} : gset Z) ≤ size (list_to_set ids : gset Z))%nat
      by (apply subseteq_size, subseteq_difference_l; done).
    lia.
Qed.

(** X1: on any cache, right after [AddUpload] of a record the lookup of its
    identifier finds its translation, every other identifier is answered as
    before the call, and the ordered sequence is one longer. *)
Theorem AddUpload_then_lookup (l : UploadsDataLoader) (d : dbstore.Dump)
    (id : Z) :
  GetUploadFromCacheMap (AddUpload l d) id
    = (if decide (id = dbstore.ID d) then (sharedDump d, true)
       else GetUploadFromCacheMap l id) ∧
  length (uploads (AddUpload l d)) = S (length (uploads l)).
Proof.
  split.
  - unfold GetUploadFromCacheMap, AddUpload. simpl. rewrite lookup_insert.
    destruct (decide (id = dbstore.ID d)) as [->|Hne].
    + by rewrite decide_True.
    + by rewrite decide_False by congruence.
  - unfold AddUpload. simpl. rewrite length_app. simpl. lia.
Qed.

Lemma dom_uploadsByID_inserts (ds : list dbstore.Dump) :
  dom (uploadsByID (foldl AddUpload NewUploadsDataLoader ds))
  = list_to_set (dbstore.ID <$> ds).
Proof.
  assert (Hids : shared.ID <$> (sharedDump <$> ds) = dbstore.ID <$> ds).
  { rewrite <- list_fmap_compose. by apply list_fmap_ext. }
  rewrite uploadsByID_foldl_AddUpload, dom_foldl_storeByID, Hids.
  simpl. rewrite dom_empty_L. apply (left_id_L ∅ (∪)).
Qed.

(** X4: after any list of inserts on a fresh cache the keys of the map are
    exactly the identifiers inserted; so the map never has more entries
    than the sequence has elements, and has as many when the identifiers
    are pairwise distinct. *)
Theorem keys_after_inserts (ds : list dbstore.Dump) :
  let l := foldl AddUpload NewUploadsDataLoader ds in
  dom (uploadsByID l) = list_to_set (dbstore.ID <$> ds) ∧
  (size (uploadsByID l) ≤ length (uploads l))%nat ∧
  (NoDup (dbstore.ID <$> ds) → size (uploadsByID l) = length (uploads l)).
Proof.
  intros l.
  pose proof (dom_uploadsByID_inserts ds) as Hdom. fold l in Hdom.
  assert (Hlen : length (uploads l) = length (dbstore.ID <$> ds)).
  { unfold l. rewrite uploads_foldl_AddUpload. simpl. by rewrite !length_fmap. }
  split; [done|]. rewrite <- size_dom, Hdom, Hlen. split.
  - apply size_list_to_set_le.
  - intros Hnd. by apply size_list_to_set.
Qed.

(** ** Refresh: composition with itself and with insert *)

(** X5: two refreshes in a row are one refresh with the two sets one after
    the other; a refresh with no upload changes nothing; and a refresh done
    twice with the same set is the same as done once. *)
Theorem refresh_composes (l : UploadsDataLoader) (us vs : list shared.Dump) :
  SetUploadInCacheMap (SetUploadInCacheMap l us) vs
    = SetUploadInCacheMap l (us ++ vs) ∧
  SetUploadInCacheMap l [] = l ∧
  SetUploadInCacheMap (SetUploadInCacheMap l us) us = SetUploadInCacheMap l us.
Proof.
  split; [|split].
  - unfold SetUploadInCacheMap. simpl. by rewrite foldl_app.
  - by destruct l.
  - unfold SetUploadInCacheMap. simpl. f_equal. apply map_eq. intros id.
    rewrite !lookup_foldl_storeByID. by destruct (latest id us).
Qed.

(** X6: a refresh with the cache's own ordered sequence puts, under every
    identifier of the sequence, the most recently inserted upload with that
    identifier, whatever earlier refreshes wrote there; on a cache that
    already satisfies the invariant of the data model it changes nothing. *)
Theorem refresh_with_own_sequence (l : UploadsDataLoader) :
  latest_inserted_wins (SetUploadInCacheMap l (uploads l)) ∧
  (cache_invariant l → SetUploadInCacheMap l (uploads l) = l).
Proof.
  split.
  - intros id u Hu. simpl in *. rewrite lookup_foldl_storeByID. by rewrite Hu.
  - intros Hinv. destruct l as [us m]. unfold SetUploadInCacheMap. simpl.
    f_equal. apply map_eq. intros id. rewrite lookup_foldl_storeByID.
    specialize (Hinv id). simpl in Hinv. rewrite Hinv.
    by destruct (latest id us).
Qed.

(** X7: an insert and a refresh can be done in either order when no upload
    of the refresh set carries the identifier inserted. *)
Theorem insert_refresh_commute (l : UploadsDataLoader) (d : dbstore.Dump)
    (us : list shared.Dump)
    (Hdisjoint : ∀ u, u ∈ us → shared.ID u ≠ dbstore.ID d) :
  AddUpload (SetUploadInCacheMap l us) d
    = SetUploadInCacheMap (AddUpload l d) us.
Proof.
  unfold AddUpload, SetUploadInCacheMap. simpl. f_equal.
  apply map_eq. intros id.
  rewrite lookup_foldl_storeByID, !lookup_insert, lookup_foldl_storeByID.
  destruct (latest id us) as [v|] eqn:E; [|done].
  apply latest_Some_ID in E as [Hid Hin].
  rewrite decide_False; [done|]. intros Heq. apply (Hdisjoint v Hin). congruence.
Qed.

(** An insert of identifier 1 and a refresh with an upload of identifier 2
    on a fresh cache. *)
Lemma insert_refresh_commute_witness :
  (∀ u, u ∈ [sharedDump upload2] → shared.ID u ≠ dbstore.ID upload1) ∧
  AddUpload (SetUploadInCacheMap NewUploadsDataLoader [sharedDump upload2]) upload1
    = SetUploadInCacheMap (AddUpload NewUploadsDataLoader upload1)
        [sharedDump upload2].
Proof.
  assert (H : ∀ u, u ∈ [sharedDump upload2] → shared.ID u ≠ dbstore.ID upload1).
  { intros u Hu. apply list_elem_of_singleton in Hu as ->. discriminate. }
  split; [exact H|].
  exact (insert_refresh_commute NewUploadsDataLoader upload1
           [sharedDump upload2] H).
Defined.

(** ** The two views through the accessors *)

Section AccessorFacts.

Context `{C : Collaborators}.

Lemma len_uploads_AddUpload (l : UploadsDataLoader) (d : dbstore.Dump) :
  len (uploads (AddUpload l d)) = len (uploads l) + 1.
Proof. unfold len, AddUpload. simpl. rewrite length_app. simpl. lia. Qed.

(** X2: an insert does not move what is already cached: every position
    below the old length reads as before, the old length is the position of
    the new upload, and positions beyond it are still out of range. *)
Theorem AddUpload_keeps_positions (l : UploadsDataLoader) (d : dbstore.Dump)
    (t : option Translator) (cc : option CommitCache) (mx : Z)
    (ac : option SubRepoPermissionChecker) (index : Z) :
  let r := mkRequestState (Some l) t cc mx ac in
  let r' := mkRequestState (Some (AddUpload l d)) t cc mx ac in
  (index < len (uploads l) →
     GetCacheUploadsAtIndex r' index = GetCacheUploadsAtIndex r index) ∧
  GetCacheUploadsAtIndex r' (len (uploads l)) = Returns (sharedDump d) ∧
  (len (uploads l) < index →
     GetCacheUploadsAtIndex r' index = Returns shared.zero).
Proof.
  intros r r'.
  assert (Hl : dataLoader r = Some l) by done.
  assert (Hl' : dataLoader r' = Some (AddUpload l d)) by done.
  pose proof (len_uploads_AddUpload l d) as Hlen.
  assert (Hpos : 0 ≤ len (uploads l)) by (unfold len; lia).
  split; [|split].
  - intros Hlt. destruct (decide (0 ≤ index)) as [Hge|Hneg].
    + destruct (GetCacheUploadsAtIndex_inside r l index Hl) as (u & Hu & ->);
        [lia|].
      destruct (GetCacheUploadsAtIndex_inside r' _ index Hl') as (u' & Hu' & ->);
        [lia|].
      unfold AddUpload in Hu'. simpl in Hu'.
      rewrite lookup_app_l in Hu' by (unfold len in Hlt; lia). congruence.
    + rewrite (GetCacheUploadsAtIndex_outside r l index Hl) by lia.
      by rewrite (GetCacheUploadsAtIndex_outside r' _ index Hl') by lia.
  - destruct (GetCacheUploadsAtIndex_inside r' _ (len (uploads l)) Hl')
      as (u' & Hu' & ->); [lia|].
    unfold AddUpload, len in Hu'. simpl in Hu'.
    rewrite Nat2Z.id, list_lookup_middle in Hu' by done. congruence.
  - intros Hgt. apply (GetCacheUploadsAtIndex_outside r' _ index Hl'). lia.
Qed.

Lemma latest_at_distinct (ds : list dbstore.Dump) (i : nat) (d : dbstore.Dump) :
  NoDup (dbstore.ID <$> ds) → ds !! i = Some d →
  latest (dbstore.ID d) (sharedDump <$> ds) = Some (sharedDump d).
Proof.
  intros Hnd Hi. apply latest_Some_split.
  rewrite <- (take_drop_middle ds i d Hi) in Hnd |- *.
  exists (sharedDump <$> take i ds), (sharedDump <$> drop (S i) ds).
  split; [by rewrite fmap_app|]. split; [done|].
  intros v (d' & -> & Hd')%list_elem_of_fmap. simpl.
  rewrite fmap_app, fmap_cons in Hnd.
  apply NoDup_app in Hnd as (_ & _ & Hnd). apply NoDup_cons in Hnd as [Hnotin _].
  intros Heq. apply Hnotin. rewrite <- Heq.
  apply list_elem_of_fmap. by exists d'.
Qed.

(** X3: when the uploads supplied at construction have pairwise distinct
    identifiers, the positional and the keyed view agree: the upload at
    position [i] is the one found under its own identifier. *)
Theorem distinct_identifiers_views_agree (ds : list dbstore.Dump)
    (checker : option SubRepoPermissionChecker) (client : Client) (rp : Repo)
    (cmt pth : string) (gitclient : GitserverClient)
    (maxIndexes hunkCacheSize : Z) (i : nat) (d : dbstore.Dump)
    (Hdistinct : NoDup (dbstore.ID <$> ds)) (Hi : ds !! i = Some d) :
  let r := NewRequestState ds checker client rp cmt pth gitclient maxIndexes
             hunkCacheSize in
  ∃ l, dataLoader r = Some l ∧
       GetCacheUploadsAtIndex r (Z.of_nat i) = Returns (sharedDump d) ∧
       GetUploadFromCacheMap l (dbstore.ID d) = (sharedDump d, true).
Proof.
  intros r. eexists. split; [apply dataLoader_NewRequestState|].
  pose proof (dataLoader_NewRequestState ds checker client rp cmt pth
                gitclient maxIndexes hunkCacheSize) as Hl.
  fold r in Hl. split.
  - destruct (GetCacheUploadsAtIndex_inside r _ (Z.of_nat i) Hl)
      as (u & Hu & ->).
    + unfold len. rewrite uploads_foldl_AddUpload. simpl.
      rewrite length_fmap. apply lookup_lt_Some in Hi. lia.
    + rewrite Nat2Z.id, uploads_foldl_AddUpload in Hu. simpl in Hu.
      rewrite list_lookup_fmap, Hi in Hu. simpl in Hu. congruence.
  - unfold GetUploadFromCacheMap.
    rewrite uploadsByID_foldl_AddUpload, lookup_foldl_storeByID.
    by rewrite (latest_at_distinct ds i d Hdistinct Hi).
Qed.

(** X8: the accessors stop with a panic exactly on a scope that has no
    upload cache: [GetCacheUploads] on every call, and
    [GetCacheUploadsAtIndex] when the index is not negative (a negative
    index is answered before the cache is looked at). *)
Theorem accessors_panic_iff_no_loader (r : RequestState C) (index : Z) :
  ((∃ p, GetCacheUploads r = Panics p) ↔ dataLoader r = None) ∧
  ((∃ p, GetCacheUploadsAtIndex r index = Panics p) ↔
     dataLoader r = None ∧ 0 ≤ index).
Proof.
  split.
  - unfold GetCacheUploads. destruct (dataLoader r) as [l|]; split; try done.
    + by intros [p ?].
    + intros _. by eexists.
  - destruct (dataLoader r) as [l|] eqn:Hl.
    + split; [|by intros [? _]]. intros [p Hp]. exfalso.
      destruct (decide (0 ≤ index < len (uploads l))) as [Hin|Hout].
      * destruct (GetCacheUploadsAtIndex_inside r l index Hl Hin) as (u & _ & Hu).
        congruence.
      * rewrite (GetCacheUploadsAtIndex_outside r l index Hl Hout) in Hp.
        discriminate.
    + unfold GetCacheUploadsAtIndex. rewrite Hl.
      destruct (index <? 0) eqn:E; split.
      * by intros [p ?].
      * intros [_ ?]. lia.
      * intros _. split; [done|lia].
      * intros _. by eexists.
Qed.

(** X9: [NewRequestState] returns a usable scope exactly when the hunk
    cache could be built; the translator is then bound to the client, the
    (repository, commit, path) triple and that hunk cache; and in every
    case the authorization handle is stored as given, the commit cache is
    built over the given client, and the upload cache satisfies the
    invariant of the data model. *)
Theorem construction_usable_iff (ds : list dbstore.Dump)
    (checker : option SubRepoPermissionChecker) (client : Client) (rp : Repo)
    (cmt pth : string) (gitclient : GitserverClient)
    (maxIndexes hunkCacheSize : Z) :
  let r := NewRequestState ds checker client rp cmt pth gitclient maxIndexes
             hunkCacheSize in
  (usable r ↔ ∃ hunkCache, NewHunkCache hunkCacheSize = inl hunkCache) ∧
  (∀ hunkCache, NewHunkCache hunkCacheSize = inl hunkCache →
     GitTreeTranslator r
     = Some (NewGitTreeTranslator client (mkRequestArgs rp cmt pth) hunkCache)) ∧
  authChecker r = checker ∧
  commitCache r = Some (newCommitCache gitclient) ∧
  ∃ l, dataLoader r = Some l ∧ cache_invariant l.
Proof.
  intros r. unfold r, NewRequestState, SetLocalGitTreeTranslator, usable.
  destruct (NewHunkCache hunkCacheSize) as [hunkCache|err]; simpl.
  - split; [|split; [|split; [done|split; [done|]]]].
    + split; [by eexists|]. intros _. repeat split; by eexists.
    + by intros ? [= <-].
    + eexists. split; [done|].
      apply cache_invariant_inserts, cache_invariant_empty.
  - split; [|split; [|split; [done|split; [done|]]]].
    + split; [|by intros [? ?]]. intros (_ & [? Ht] & _). discriminate Ht.
    + by intros ? ?.
    + eexists. split; [done|].
      apply cache_invariant_inserts, cache_invariant_empty.
Qed.

(** X10: [SetUploadsDataLoader] starts from a new cache: what the scope
    cached before, inserted or refreshed, is gone; the cache holds the given
    uploads in order and satisfies the invariant of the data model; the
    other fields of the scope are untouched. *)
Theorem SetUploadsDataLoader_replaces_cache (r : RequestState C)
    (ds : list dbstore.Dump) :
  let r' := SetUploadsDataLoader r ds in
  (∃ l, dataLoader r' = Some l ∧ uploads l = sharedDump <$> ds ∧
        cache_invariant l ∧
        dom (uploadsByID l) = list_to_set (dbstore.ID <$> ds)) ∧
  GitTreeTranslator r' = GitTreeTranslator r ∧
  commitCache r' = commitCache r ∧
  maximumIndexesPerMonikerSearch r' = maximumIndexesPerMonikerSearch r ∧
  authChecker r' = authChecker r.
Proof.
  intros r'. split; [|done].
  eexists. split; [done|]. split; [|split].
  - by rewrite uploads_foldl_AddUpload.
  - apply cache_invariant_inserts, cache_invariant_empty.
  - apply dom_uploadsByID_inserts.
Qed.

End AccessorFacts.

(** The scope of two uploads: position 1 and identifier 2 give the same
    upload. *)
Lemma distinct_identifiers_views_agree_witness :
  NoDup (dbstore.ID <$> [upload1; upload2]) ∧
  [upload1; upload2] !! 1%nat = Some upload2 ∧
  ∃ l, dataLoader example_scope = Some l ∧
       GetCacheUploadsAtIndex example_scope 1 = Returns (sharedDump upload2) ∧
       GetUploadFromCacheMap l 2 = (sharedDump upload2, true).
Proof.
  assert (Hnd : NoDup (dbstore.ID <$> [upload1; upload2])).
  { simpl. apply NoDup_cons. split.
    - intros Hin. apply list_elem_of_singleton in Hin. discriminate Hin.
    - apply NoDup_singleton. }
  split; [exact Hnd|]. split; [reflexivity|].
  exact (distinct_identifiers_views_agree (C := Wiring.collaborators)
           [upload1; upload2] (Some "checker") "client" "repo" "deadbeef"
           "main.go" "gitclient" 50 100 1%nat upload2 Hnd eq_refl).
Defined.

(** ** The locked methods under interleaving *)

(** Every schedule of a few goroutines is followed tick by tick: a tick
    that names a goroutine that is blocked, finished or missing ends the
    schedule. *)
Ltac run_schedule H :=
  repeat match type of H with
  | schedule ?s _ = Some _ =>
      destruct s as [|[|[|[|?]]] ?]; cbn in H; try discriminate H
  end.


(** X12: a lookup that runs concurrently with an insert never sees the
    insert half done: in every schedule that runs both to their return, the
    lookup answers as on the cache before the insert or as on the cache
    after it, and the cache ends as after the insert, unlocked. *)
Theorem lookup_atomic_with_insert (l : UploadsDataLoader) (d : dbstore.Dump)
    (id : Z) (sched : list nat) (m' : memory) (v : value)
    (Hrun : schedule sched
              (mkMemory l unlocked,
               [AddUpload_body d; GetUploadFromCacheMap_body id])
            = Some (m', [Ret VUnit; Ret v])) :
  m' = mkMemory (AddUpload l d) unlocked ∧
  (v = VLookup (GetUploadFromCacheMap l id).1 (GetUploadFromCacheMap l id).2 ∨
   v = VLookup (GetUploadFromCacheMap (AddUpload l d) id).1
               (GetUploadFromCacheMap (AddUpload l d) id).2).
Proof.
  run_schedule Hrun.
  all: injection Hrun as <- <-; split; [reflexivity|].
  - right. unfold GetUploadFromCacheMap, AddUpload. simpl.
    by destruct (<[_ := _]> (uploadsByID l) !! id).
  - left. unfold GetUploadFromCacheMap. by destruct (uploadsByID l !! id).
Qed.

(** X13: two concurrent inserts are serialized: in every schedule that runs
    both to their return the cache ends, unlocked, as after one insert
    followed by the other, in one of the two orders; so the sequence is two
    longer and both identifiers are found, and when the identifiers differ
    each is found with its own upload. *)
Theorem concurrent_inserts_serialize (l : UploadsDataLoader)
    (d1 d2 : dbstore.Dump) (sched : list nat) (m' : memory)
    (Hrun : schedule sched
              (mkMemory l unlocked, [AddUpload_body d1; AddUpload_body d2])
            = Some (m', [Ret VUnit; Ret VUnit])) :
  cacheMutex m' = unlocked ∧
  (loader m' = AddUpload (AddUpload l d1) d2 ∨
   loader m' = AddUpload (AddUpload l d2) d1) ∧
  length (uploads (loader m')) = S (S (length (uploads l))) ∧
  (GetUploadFromCacheMap (loader m') (dbstore.ID d1)).2 = true ∧
  (GetUploadFromCacheMap (loader m') (dbstore.ID d2)).2 = true ∧
  (dbstore.ID d1 ≠ dbstore.ID d2 →
     GetUploadFromCacheMap (loader m') (dbstore.ID d1) = (sharedDump d1, true) ∧
     GetUploadFromCacheMap (loader m') (dbstore.ID d2) = (sharedDump d2, true)).
Proof.
  run_schedule Hrun.
  all: injection Hrun as <-; split; [reflexivity|].
  all: split; [by (left + right)|].
  all: split; [simpl; rewrite !length_app; simpl; lia|].
  all: unfold GetUploadFromCacheMap, storeByID; simpl.
  all: rewrite !lookup_insert.
  all: repeat case_decide; try done.
  all: repeat split; try done; intros; try done.
  all: repeat split; congruence.
Qed.

(** X14: two inserts and a lookup never deadlock: after any schedule that
    ran, either all three have returned or one of them can take its next
    step. *)
Theorem inserts_and_lookup_progress (l : UploadsDataLoader)
    (d1 d2 : dbstore.Dump) (id : Z) (sched : list nat) (c : config)
    (Hrun : schedule sched
              (mkMemory l unlocked,
               [AddUpload_body d1; AddUpload_body d2;
                GetUploadFromCacheMap_body id])
            = Some c) :
  (∃ v, c.2 = [Ret VUnit; Ret VUnit; Ret v]) ∨ ∃ i, is_Some (advance i c).
Proof.
  run_schedule Hrun.
  all: injection Hrun as <-.
  all: first [ left; eexists; reflexivity
             | right; exists 0%nat; cbn; eexists; reflexivity
             | right; exists 1%nat; cbn; eexists; reflexivity
             | right; exists 2%nat; cbn; eexists; reflexivity ].
Qed.

(** An insert of [upload1] that runs to its return, then the lookup of
    identifier 1. *)
Lemma lookup_atomic_with_insert_witness :
  schedule [0; 0; 0; 0; 1; 1; 1]%nat
    (mkMemory NewUploadsDataLoader unlocked,
     [AddUpload_body upload1; GetUploadFromCacheMap_body 1])
  = Some (mkMemory (AddUpload NewUploadsDataLoader upload1) unlocked,
          [Ret VUnit; Ret (VLookup (sharedDump upload1) true)]) ∧
  (VLookup (sharedDump upload1) true
   = VLookup (GetUploadFromCacheMap NewUploadsDataLoader 1).1
             (GetUploadFromCacheMap NewUploadsDataLoader 1).2 ∨
   VLookup (sharedDump upload1) true
   = VLookup (GetUploadFromCacheMap (AddUpload NewUploadsDataLoader upload1) 1).1
             (GetUploadFromCacheMap (AddUpload NewUploadsDataLoader upload1) 1).2).
Proof.
  split; [reflexivity|].
  exact (proj2 (lookup_atomic_with_insert NewUploadsDataLoader upload1 1
                  [0; 0; 0; 0; 1; 1; 1]%nat
                  (mkMemory (AddUpload NewUploadsDataLoader upload1) unlocked)
                  (VLookup (sharedDump upload1) true) eq_refl)).
Defined.

(** The insert of [upload2] first, then the insert of [upload1]. *)
Lemma concurrent_inserts_serialize_witness :
  schedule [1; 1; 1; 1; 0; 0; 0; 0]%nat
    (mkMemory NewUploadsDataLoader unlocked,
     [AddUpload_body upload1; AddUpload_body upload2])
  = Some (mkMemory (AddUpload (AddUpload NewUploadsDataLoader upload2) upload1)
            unlocked,
          [Ret VUnit; Ret VUnit]) ∧
  length (uploads (AddUpload (AddUpload NewUploadsDataLoader upload2) upload1))
  = 2%nat.
Proof.
  split; [reflexivity|].
  exact (proj1 (proj2 (proj2
           (concurrent_inserts_serialize NewUploadsDataLoader upload1 upload2
              [1; 1; 1; 1; 0; 0; 0; 0]%nat
              (mkMemory (AddUpload (AddUpload NewUploadsDataLoader upload2)
                           upload1) unlocked)
              eq_refl)))).
Defined.

(** The first insert holds the write lock after its append: the other two
    goroutines are blocked, the first one can go on. *)
Lemma inserts_and_lookup_progress_witness :
  ∃ c, schedule [0; 0]%nat
         (mkMemory NewUploadsDataLoader unlocked,
          [AddUpload_body upload1; AddUpload_body upload2;
           GetUploadFromCacheMap_body 1])
       = Some c ∧
       advance 1 c = None ∧ advance 2 c = None ∧
       ((∃ v, c.2 = [Ret VUnit; Ret VUnit; Ret v]) ∨ ∃ i, is_Some (advance i c)).
Proof.
  eexists. split; [reflexivity|]. split; [reflexivity|]. split; [reflexivity|].
  exact (inserts_and_lookup_progress NewUploadsDataLoader upload1 upload2 1
           [0; 0]%nat _ eq_refl).
Defined.
